(** * impeller/renderer/backend/gles/proc_table_gles.h

    A shallow embedding of the GLES procedure table of the Impeller
    renderer: the scoped error check [AutoErrorCheck], the typed procedure
    slot [GLProc<T>], the macro-enumerated list of driver entry points and
    the class [ProcTableGLES].

    The header declares, but does not define, [GLErrorToString] and the
    member functions of [ProcTableGLES]; the parts of this development that
    concern them are marked as modelled from the specification. *)

From Stdlib Require Import NArith ZArith List String Ascii Bool Lia.
From Stdlib Require Import DecimalString.
Import ListNotations.

Local Open Scope string_scope.

(* ===================================================================== *)
(** * Driver types and constants *)
(* ===================================================================== *)

(** [GLenum] is an unsigned 32-bit integer, [GLint] a signed one.  No
    arithmetic is performed on either in this file. *)
Definition GLenum := N.
Definition GLint := Z.

(** The constants of the GLES header ([gles.h] is not part of the
    repository): they are taken as parameters. *)
Class GLES := {
  GL_NO_ERROR : GLenum;
  GL_FRAMEBUFFER : GLenum;
  GL_FRAMEBUFFER_COMPLETE : GLenum;
}.

(** The values the Khronos [gl2.h] header gives them; used for concrete
    runs only. *)
Definition Khronos : GLES := {|
  GL_NO_ERROR := 0%N;
  GL_FRAMEBUFFER := 36160%N;          (* 0x8D40 *)
  GL_FRAMEBUFFER_COMPLETE := 36053%N; (* 0x8CD5 *)
|}.

(* ===================================================================== *)
(** * Execution model *)
(* ===================================================================== *)

(** What a run of the program does to the driver is recorded as a trace:
    one event per invocation of a function pointer. *)
Inductive Event :=
| DriverCall   (* a slot's [function] pointer was invoked *)
| ErrorQuery.  (* an [error_fn] pointer was invoked *)

(** The reasons a run can have undefined behaviour. *)
Inductive UB :=
| NullFunctionCall   (* call through a null function pointer *)
| NullStringInsert.  (* [operator<<] applied to a null [const char*] *)

Section Execution.

(** The state of the driver context. *)
Context {World : Type}.

Record State := mkState {
  world : World;
  trace : list Event;
}.

(** A run either returns to its caller, or is terminated by a failed
    [FML_CHECK] with the diagnostic streamed into it, or has undefined
    behaviour.  Each outcome carries the state reached. *)
Inductive Outcome (A : Type) :=
| Returned (a : A) (s : State)
| Aborted (diagnostic : string) (s : State)
| Undefined (why : UB) (s : State).

Definition Run (A : Type) := State -> Outcome A.

Definition ret {A} (a : A) : Run A := fun s => Returned A a s.

Definition bind {A B} (m : Run A) (k : A -> Run B) : Run B :=
  fun s =>
    match m s with
    | Returned _ a s' => k a s'
    | Aborted _ d s' => Aborted B d s'
    | Undefined _ u s' => Undefined B u s'
    end.

Definition final_state {A} (o : Outcome A) : State :=
  match o with
  | Returned _ _ s | Aborted _ _ s | Undefined _ _ s => s
  end.

(** A driver function as seen through a C function pointer: it takes its
    arguments and the driver state, and returns its result and the new
    driver state.  A null pointer is [None]. *)
Definition FunctionPtr (A R : Type) := option (A -> World -> R * World).

(** [PFNGLGETERRORPROC]: a pointer to a zero-argument function returning
    an error code. *)
Definition PFNGLGETERRORPROC := option (World -> GLenum * World).

(** [error_fn()] for a non-null [error_fn]. *)
Definition query_error (e : World -> GLenum * World) : Run GLenum :=
  fun s =>
    let (code, w) := e (world s) in
    Returned _ code {| world := w; trace := trace s ++ [ErrorQuery] |}.

(** [function(args...)]. *)
Definition invoke {A R} (f : FunctionPtr A R) (args : A) : Run R :=
  fun s =>
    match f with
    | None => Undefined _ NullFunctionCall s
    | Some g =>
        let (r, w) := g args (world s) in
        Returned _ r {| world := w; trace := trace s ++ [DriverCall] |}
    end.

(** The state after an error query made in state [s]. *)
Definition after_query (e : World -> GLenum * World) (s : State)
  : State :=
  {| world := snd (e (world s)); trace := trace s ++ [ErrorQuery] |}.

(** The state after a driver call made in state [s]. *)
Definition after_call {A R} (f : A -> World -> R * World) (args : A)
  (s : State) : State :=
  {| world := snd (f args (world s)); trace := trace s ++ [DriverCall] |}.

End Execution.

Arguments State : clear implicits.
Arguments Outcome : clear implicits.
Arguments Run : clear implicits.
Arguments FunctionPtr : clear implicits.
Arguments PFNGLGETERRORPROC : clear implicits.
Arguments Returned {World A} a s.
Arguments Aborted {World A} diagnostic s.
Arguments Undefined {World A} why s.

Declare Scope run_scope.
Delimit Scope run_scope with run.
Notation "x <- m ;; k" := (bind m (fun x => k))
  (at level 61, m at next level, right associativity) : run_scope.
Notation "m ;; k" := (bind m (fun _ => k))
  (at level 61, right associativity) : run_scope.

(** The text [operator<<] inserts for an unsigned integer. *)
Definition decimal (n : N) : string := NilZero.string_of_uint (N.to_uint n).

(** [part] occurs in [whole]. *)
Definition contains (part whole : string) : Prop :=
  exists before after, whole = before ++ part ++ after.

(* ===================================================================== *)
(** * struct AutoErrorCheck *)
(* ===================================================================== *)

Module AutoErrorCheck.
Section AutoErrorCheck.

Context {World : Type} {gl : GLES}.

(** [const char* GLErrorToString(GLenum value);] is declared in the
    header and defined elsewhere. *)
Variable GLErrorToString : GLenum -> string.

Record t := ctor {
  error_fn : PFNGLGETERRORPROC World;
  name : option string;
}.

(** Modelled from the spec: [FML_CHECK] of [flutter/fml/logging.h], which
    the repository includes but does not contain.  When the condition is
    false the process is terminated with a fatal diagnostic that holds
    what was streamed into the check; when it is true nothing is
    streamed and execution continues. *)
Definition FML_CHECK (condition : bool) (streamed : Run World string)
  : Run World unit :=
  if condition then ret tt
  else fun s =>
    match streamed s with
    | Returned d s' => Aborted d s'
    | Aborted d s' => Aborted d s'
    | Undefined u s' => Undefined u s'
    end.

(** [stream << name] for a [const char*]. *)
Definition insert_c_str (so_far : string) (p : option string)
  : Run World string :=
  match p with
  | Some text => ret (so_far ++ text)
  | None => fun s => Undefined NullStringInsert s
  end.

(** The diagnostic of the destructor's check. *)
Definition diagnostic (error : GLenum) (name : option string)
  : Run World string :=
  insert_c_str
    ("GL Error " ++ GLErrorToString error ++ "(" ++ decimal error ++ ")"
       ++ " encountered on call to ")
    name.

(** The text streamed when the name is not null. *)
Definition diagnostic_text (error : GLenum) (name : string) : string :=
  ("GL Error " ++ GLErrorToString error ++ "(" ++ decimal error ++ ")"
     ++ " encountered on call to ") ++ name.

(** [~AutoErrorCheck()]. *)
Definition dtor (this : t) : Run World unit :=
  match error_fn this with
  | Some e =>
      (error <- query_error e ;;
       FML_CHECK (N.eqb error GL_NO_ERROR) (diagnostic error (name this)))%run
  | None => ret tt
  end.

End AutoErrorCheck.
End AutoErrorCheck.

Arguments AutoErrorCheck.t : clear implicits.

(* ===================================================================== *)
(** * template <class T> struct GLProc *)
(* ===================================================================== *)

Module GLProc.
Section GLProc.

Context {World : Type} {gl : GLES}.
Variable GLErrorToString : GLenum -> string.

(** [T] is a function type; [A] stands for its argument types and [R]
    for its return type. *)
Context {A R : Type}.

Record t := mk {
  name : option string;
  function : FunctionPtr World A R;
  error_fn : PFNGLGETERRORPROC World;
}.

(** The default member initialisers. *)
Definition default : t :=
  {| name := None; function := None; error_fn := None |}.

(** [operator()]: the guard is constructed, the function is called, the
    guard is destroyed, the function's result is returned. *)
Definition call (this : t) (args : A) : Run World R :=
  (let error := AutoErrorCheck.ctor (error_fn this) (name this) in
   result <- invoke (function this) args ;;
   AutoErrorCheck.dtor GLErrorToString error ;;
   ret result)%run.

Definition IsAvailable (this : t) : bool :=
  match function this with
  | Some _ => true
  | None => false
  end.

Definition Reset (this : t) : t :=
  {| name := None; function := None; error_fn := None |}.

End GLProc.
End GLProc.

Arguments GLProc.t : clear implicits.

(* ===================================================================== *)
(** * class ProcTableGLES: declarations of the header *)
(* ===================================================================== *)

(** The C signatures of the entry points ([decltype(gl##name)]) come from
    the GLES header, which is not part of the repository.  The slots of the
    table are modelled at one signature: a list of argument values to a
    result value. *)
Inductive GLValue :=
| GLvoidV
| GLenumV (e : GLenum)
| GLintV (i : GLint)
| GLcharsV (text : string).

Definition is_enum (expected : GLenum) (v : GLValue) : bool :=
  match v with
  | GLenumV e => N.eqb e expected
  | _ => false
  end.

Inductive DebugResourceType :=
| kTexture
| kBuffer
| kProgram
| kShader.

Module ProcTableGLES.

(** One member of the class per name of [FOR_EACH_IMPELLER_PROC] and of
    [FOR_EACH_IMPELLER_EXT_PROC]. *)
Inductive Proc :=
| ActiveTexture
| AttachShader
| BindAttribLocation
| BindBuffer
| BindTexture
| BlendEquationSeparate
| BlendFuncSeparate
| BufferData
| CheckFramebufferStatus
| Clear
| ClearColor
| ClearDepthf
| ClearStencil
| ColorMask
| CompileShader
| CreateProgram
| CreateShader
| CullFace
| DeleteBuffers
| DeleteProgram
| DeleteShader
| DeleteTextures
| DepthFunc
| DepthMask
| DepthRangef
| DetachShader
| Disable
| DisableVertexAttribArray
| DrawElements
| Enable
| EnableVertexAttribArray
| FrontFace
| GenBuffers
| GenTextures
| GetActiveUniform
| GetBooleanv
| GetFloatv
| GetFramebufferAttachmentParameteriv
| GetIntegerv
| GetProgramiv
| GetShaderInfoLog
| GetShaderiv
| GetString
| GetUniformLocation
| IsFramebuffer
| IsProgram
| LinkProgram
| Scissor
| ShaderBinary
| ShaderSource
| StencilFuncSeparate
| StencilMaskSeparate
| StencilOpSeparate
| TexImage2D
| TexParameteri
| Uniform1fv
| Uniform1i
| Uniform2fv
| Uniform4fv
| UniformMatrix4fv
| UseProgram
| VertexAttribPointer
| Viewport
| PushDebugGroupKHR
| PopDebugGroupKHR
| ObjectLabelKHR.

Scheme Equality for Proc.

(** [#name]. *)
Definition stringify (p : Proc) : string :=
  match p with
  | ActiveTexture => "ActiveTexture"
  | AttachShader => "AttachShader"
  | BindAttribLocation => "BindAttribLocation"
  | BindBuffer => "BindBuffer"
  | BindTexture => "BindTexture"
  | BlendEquationSeparate => "BlendEquationSeparate"
  | BlendFuncSeparate => "BlendFuncSeparate"
  | BufferData => "BufferData"
  | CheckFramebufferStatus => "CheckFramebufferStatus"
  | Clear => "Clear"
  | ClearColor => "ClearColor"
  | ClearDepthf => "ClearDepthf"
  | ClearStencil => "ClearStencil"
  | ColorMask => "ColorMask"
  | CompileShader => "CompileShader"
  | CreateProgram => "CreateProgram"
  | CreateShader => "CreateShader"
  | CullFace => "CullFace"
  | DeleteBuffers => "DeleteBuffers"
  | DeleteProgram => "DeleteProgram"
  | DeleteShader => "DeleteShader"
  | DeleteTextures => "DeleteTextures"
  | DepthFunc => "DepthFunc"
  | DepthMask => "DepthMask"
  | DepthRangef => "DepthRangef"
  | DetachShader => "DetachShader"
  | Disable => "Disable"
  | DisableVertexAttribArray => "DisableVertexAttribArray"
  | DrawElements => "DrawElements"
  | Enable => "Enable"
  | EnableVertexAttribArray => "EnableVertexAttribArray"
  | FrontFace => "FrontFace"
  | GenBuffers => "GenBuffers"
  | GenTextures => "GenTextures"
  | GetActiveUniform => "GetActiveUniform"
  | GetBooleanv => "GetBooleanv"
  | GetFloatv => "GetFloatv"
  | GetFramebufferAttachmentParameteriv => "GetFramebufferAttachmentParameteriv"
  | GetIntegerv => "GetIntegerv"
  | GetProgramiv => "GetProgramiv"
  | GetShaderInfoLog => "GetShaderInfoLog"
  | GetShaderiv => "GetShaderiv"
  | GetString => "GetString"
  | GetUniformLocation => "GetUniformLocation"
  | IsFramebuffer => "IsFramebuffer"
  | IsProgram => "IsProgram"
  | LinkProgram => "LinkProgram"
  | Scissor => "Scissor"
  | ShaderBinary => "ShaderBinary"
  | ShaderSource => "ShaderSource"
  | StencilFuncSeparate => "StencilFuncSeparate"
  | StencilMaskSeparate => "StencilMaskSeparate"
  | StencilOpSeparate => "StencilOpSeparate"
  | TexImage2D => "TexImage2D"
  | TexParameteri => "TexParameteri"
  | Uniform1fv => "Uniform1fv"
  | Uniform1i => "Uniform1i"
  | Uniform2fv => "Uniform2fv"
  | Uniform4fv => "Uniform4fv"
  | UniformMatrix4fv => "UniformMatrix4fv"
  | UseProgram => "UseProgram"
  | VertexAttribPointer => "VertexAttribPointer"
  | Viewport => "Viewport"
  | PushDebugGroupKHR => "PushDebugGroupKHR"
  | PopDebugGroupKHR => "PopDebugGroupKHR"
  | ObjectLabelKHR => "ObjectLabelKHR"
  end.

Definition FOR_EACH_IMPELLER_PROC : list Proc :=
  [ActiveTexture;
   AttachShader;
   BindAttribLocation;
   BindBuffer;
   BindTexture;
   BlendEquationSeparate;
   BlendFuncSeparate;
   BufferData;
   CheckFramebufferStatus;
   Clear;
   ClearColor;
   ClearDepthf;
   ClearStencil;
   ColorMask;
   CompileShader;
   CreateProgram;
   CreateShader;
   CullFace;
   DeleteBuffers;
   DeleteProgram;
   DeleteShader;
   DeleteTextures;
   DepthFunc;
   DepthMask;
   DepthRangef;
   DetachShader;
   Disable;
   DisableVertexAttribArray;
   DrawElements;
   Enable;
   EnableVertexAttribArray;
   FrontFace;
   GenBuffers;
   GenTextures;
   GetActiveUniform;
   GetBooleanv;
   GetFloatv;
   GetFramebufferAttachmentParameteriv;
   GetIntegerv;
   GetProgramiv;
   GetShaderInfoLog;
   GetShaderiv;
   GetString;
   GetUniformLocation;
   IsFramebuffer;
   IsProgram;
   LinkProgram;
   Scissor;
   ShaderBinary;
   ShaderSource;
   StencilFuncSeparate;
   StencilMaskSeparate;
   StencilOpSeparate;
   TexImage2D;
   TexParameteri;
   Uniform1fv;
   Uniform1i;
   Uniform2fv;
   Uniform4fv;
   UniformMatrix4fv;
   UseProgram;
   VertexAttribPointer;
   Viewport].

Definition FOR_EACH_IMPELLER_EXT_PROC : list Proc :=
  [PushDebugGroupKHR;
   PopDebugGroupKHR;
   ObjectLabelKHR].

(** ["gl" #name]. *)
Definition symbol (p : Proc) : string := "gl" ++ stringify p.

Section Declarations.

Context {World : Type}.

(** [gl_description.h] is not part of the repository: the description
    is an opaque value. *)
Context {GLDescription : Type}.

Definition Slot := GLProc.t World (list GLValue) GLValue.

(** [GLProc<decltype(gl##name)> name = {"gl" #name, nullptr};]: the
    first two members are given, the third takes its default member
    initialiser. *)
Definition IMPELLER_PROC (p : Proc) : Slot :=
  {| GLProc.name := Some (symbol p);
     GLProc.function := None;
     GLProc.error_fn := None |}.

Record t := mk {
  procs : Proc -> Slot;
  is_valid_ : bool;
  description_ : option GLDescription;
}.

(** The members as their initialisers leave them, before the body of
    the constructor runs. *)
Definition declared : t :=
  {| procs := IMPELLER_PROC; is_valid_ := false; description_ := None |}.

End Declarations.

Arguments Slot : clear implicits.
Arguments t : clear implicits.


(* ===================================================================== *)
(** * class ProcTableGLES: member functions *)
(* ===================================================================== *)

(** The header declares the constructor and the member functions; their
    bodies are in a source file that is not part of the repository.  Each
    is modelled from the specification, as marked. *)

Section Members.

Context {World : Type} {gl : GLES}.
Variable GLErrorToString : GLenum -> string.

(** The driver description is an external collaborator: its type, its
    constructor and its capability predicate are parameters. *)
Context {GLDescription : Type}.
Variable GLDescription_ctor :
  (Proc -> Slot World) -> Run World GLDescription.
Variable HasDebugExtension : GLDescription -> bool.

(** The driver's identifier of a resource type, and the way results of
    the framebuffer queries are rendered as text. *)
Variable ToDebugIdentifier : DebugResourceType -> GLenum.
Variable describe_attachments : GLValue -> string.
Variable describe_status : GLValue -> string.

Local Abbreviation Table := (t World GLDescription).

(** [std::function<void*(const char* function_name)>]: the address is
    null ([None]) when the symbol is not resolved. *)
Definition Resolver := string -> FunctionPtr World (list GLValue) GLValue.

(** Whether the resolver returns a non-null address for the symbol of
    [p]. *)
Definition resolves (resolver : Resolver) (p : Proc) : bool :=
  match resolver (symbol p) with
  | Some _ => true
  | None => false
  end.

(** Modelled from the spec: one step of the construction protocol, which
    invokes the resolver with the driver-prefixed name of [p] and stores
    the returned address as the function pointer of the slot of [p]; the
    name and the error-query binding of the slot are left as they are. *)
Definition resolve (resolver : Resolver) (slots : Proc -> Slot World)
  (p : Proc) : Proc -> Slot World :=
  fun q =>
    if Proc_beq q p
    then {| GLProc.name := GLProc.name (slots p);
            GLProc.function := resolver (symbol p);
            GLProc.error_fn := GLProc.error_fn (slots p) |}
    else slots q.

(** Modelled from the spec: step 2 of the construction protocol, for
    every declared core function and every declared extension function. *)
Definition resolve_all (resolver : Resolver) : Proc -> Slot World :=
  fold_left (resolve resolver)
    (FOR_EACH_IMPELLER_PROC ++ FOR_EACH_IMPELLER_EXT_PROC)
    IMPELLER_PROC.

(** Modelled from the spec: step 3 of the construction protocol, the
    validity flag, which is true iff every core slot resolved to non-null;
    the extension slots are excluded from the check. *)
Definition compute_validity (slots : Proc -> Slot World) : bool :=
  forallb (fun p => GLProc.IsAvailable (slots p)) FOR_EACH_IMPELLER_PROC.

(** Modelled from the spec: the constructor [ProcTableGLES(Resolver)],
    whose body is missing.  It resolves all slots, computes the validity
    flag and, if valid, constructs the driver description by issuing calls
    through the resolved slots. *)
Definition ctor (resolver : Resolver) : Run World Table :=
  let slots := resolve_all resolver in
  if compute_validity slots
  then (description <- GLDescription_ctor slots ;;
        ret {| procs := slots;
               is_valid_ := true;
               description_ := Some description |})%run
  else ret {| procs := slots; is_valid_ := false; description_ := None |}.

(** Modelled from the spec: [IsValid()], whose body is missing, returns
    the validity flag computed at construction. *)
Definition IsValid (this : Table) : bool := is_valid_ this.

(** Modelled from the spec: [IsCurrentFramebufferComplete()], whose body
    is missing.  A boolean derived from the completeness-status slot: true
    exactly when the slot reports the driver's complete sentinel, false
    for every other value and when the slot is unavailable. *)
Definition IsCurrentFramebufferComplete (this : Table) : Run World bool :=
  let slot := procs this CheckFramebufferStatus in
  if GLProc.IsAvailable slot
  then (status <- GLProc.call GLErrorToString slot [GLenumV GL_FRAMEBUFFER] ;;
        ret (is_enum GL_FRAMEBUFFER_COMPLETE status))%run
  else ret false.

(** Whether the owned description reports the debug-labeling capability;
    a table without a description has no capability to report. *)
Definition has_debug_extension (this : Table) : bool :=
  match description_ this with
  | Some description => HasDebugExtension description
  | None => false
  end.

(** Modelled from the spec: [SetDebugLabel], whose body is missing.  It
    attaches a label to a driver resource through the debug-labeling
    extension slot, and is a silent no-op if the slot is not resolved or
    the driver description reports the capability absent. *)
Definition SetDebugLabel (this : Table) (type : DebugResourceType)
  (name : GLint) (label : string) : Run World unit :=
  let slot := procs this ObjectLabelKHR in
  if negb (GLProc.IsAvailable slot) then ret tt
  else if negb (has_debug_extension this) then ret tt
  else (_ <- GLProc.call GLErrorToString slot
              [GLenumV (ToDebugIdentifier type); GLintV name; GLcharsV label] ;;
        ret tt)%run.

(** The description returned when nothing can be queried. *)
Definition no_information : string := "no information available".

(** One part of the framebuffer description: the rendering of what the
    slot reports, or a note that it could not be queried. *)
Definition query_or_note (slot : Slot World) (render : GLValue -> string)
  (note : string) : Run World string :=
  if GLProc.IsAvailable slot
  then (v <- GLProc.call GLErrorToString slot [GLenumV GL_FRAMEBUFFER] ;;
        ret (render v))%run
  else ret note.

(** Modelled from the spec: [DescribeCurrentFramebuffer()], whose body is
    missing.  It summarises the bound framebuffer by querying the
    attachment-parameter slot and the status slot, degrades to a partial
    description noting what could not be queried, and returns a defined
    description when neither slot is available. *)
Definition DescribeCurrentFramebuffer (this : Table) : Run World string :=
  let attachment := procs this GetFramebufferAttachmentParameteriv in
  let status := procs this CheckFramebufferStatus in
  if negb (GLProc.IsAvailable attachment) && negb (GLProc.IsAvailable status)
  then ret no_information
  else (a <- query_or_note attachment describe_attachments
               "attachments could not be queried" ;;
        c <- query_or_note status describe_status
               "status could not be queried" ;;
        ret (a ++ "; " ++ c))%run.

End Members.

Arguments Resolver : clear implicits.

End ProcTableGLES.

(* ===================================================================== *)
(** * GLErrorToString *)
(* ===================================================================== *)

(** The text returned for a code that is not in the known enumeration. *)
Definition unknown_error : string := "unknown error".

(** Modelled from the spec: [GLErrorToString], which the header declares
    and whose body is missing.  Given the known enumeration of error codes
    with their identifier strings, it returns the identifier of a known
    code and a generic text for any other code. *)
Definition GLErrorToString (known : list (GLenum * string)) (value : GLenum)
  : string :=
  match find (fun entry => N.eqb (fst entry) value) known with
  | Some entry => snd entry
  | None => unknown_error
  end.

(** The error codes of the Khronos header with their identifiers; used
    for concrete runs only. *)
Definition khronos_errors : list (GLenum * string) :=
  [(0%N, "GL_NO_ERROR");
   (1280%N, "GL_INVALID_ENUM");
   (1281%N, "GL_INVALID_VALUE");
   (1282%N, "GL_INVALID_OPERATION");
   (1285%N, "GL_OUT_OF_MEMORY");
   (1286%N, "GL_INVALID_FRAMEBUFFER_OPERATION")].

(* ===================================================================== *)
(** * Stub drivers *)
(* ===================================================================== *)

(** Stubs to run the table against: the driver state is a counter of the
    work the driver did. *)
Module Stub.

Definition World := nat.

(** A driver function returning [v], at the cost of one unit of work. *)
Definition returning (v : GLValue) : list GLValue -> World -> GLValue * World :=
  fun _ w => (v, S w).

(** An error query reporting [code]. *)
Definition reporting (code : GLenum) : World -> GLenum * World :=
  fun w => (code, w).

Definition start : State World := {| world := 0; trace := [] |}.

Definition slot (name : string) (v : GLValue) (code : option GLenum)
  : GLProc.t World (list GLValue) GLValue :=
  {| GLProc.name := Some name;
     GLProc.function := Some (returning v);
     GLProc.error_fn := option_map reporting code |}.

(** A resolver that knows every symbol, and one that misses [glClear]. *)
Definition resolve_everything : ProcTableGLES.Resolver World :=
  fun _ => Some (returning GLvoidV).

Definition resolve_all_but_clear : ProcTableGLES.Resolver World :=
  fun symbol =>
    if String.eqb symbol "glClear" then None else Some (returning GLvoidV).

(** A description that is a single capability flag. *)
Definition describe (has_debug : bool)
  : (ProcTableGLES.Proc -> ProcTableGLES.Slot World) -> Run World bool :=
  fun _ => ret has_debug.

Definition identifier (type : DebugResourceType) : GLenum :=
  match type with
  | kTexture => 5890%N
  | kBuffer => 33504%N
  | kProgram => 33506%N
  | kShader => 33505%N
  end.

Definition render (v : GLValue) : string :=
  match v with
  | GLenumV e => decimal e
  | _ => "?"
  end.

(** A table with no slot resolved. *)
Definition empty_table : ProcTableGLES.t World bool := ProcTableGLES.declared.

(** A table whose status slot reports [status]. *)
Definition table_reporting (status : GLenum) : ProcTableGLES.t World bool :=
  {| ProcTableGLES.procs := fun p =>
       match p with
       | ProcTableGLES.CheckFramebufferStatus =>
           slot "glCheckFramebufferStatus" (GLenumV status) (Some 0%N)
       | _ => ProcTableGLES.IMPELLER_PROC p
       end;
     ProcTableGLES.is_valid_ := false;
     ProcTableGLES.description_ := None |}.

End Stub.

(* ===================================================================== *)
(** * Text *)
(* ===================================================================== *)


Lemma append_assoc (a b c : string) : (a ++ b) ++ c = a ++ (b ++ c).
Proof.
  induction a as [|ch a IH]; simpl; [reflexivity | now rewrite IH].
Qed.

Lemma append_empty_r (a : string) : a ++ EmptyString = a.
Proof.
  induction a as [|ch a IH]; simpl; [reflexivity | now rewrite IH].
Qed.

Lemma contains_here (part after : string) : contains part (part ++ after).
Proof. exists EmptyString, after. reflexivity. Qed.

Lemma contains_later (before part whole : string) :
  contains part whole -> contains part (before ++ whole).
Proof.
  intros (b & a & ->). exists (before ++ b), a. now rewrite append_assoc.
Qed.

Lemma contains_earlier (part whole after : string) :
  contains part whole -> contains part (whole ++ after).
Proof.
  intros (b & a & ->). exists b, (a ++ after).
  now rewrite !append_assoc.
Qed.

Lemma contains_end (before part : string) : contains part (before ++ part).
Proof. exists before, EmptyString. now rewrite append_empty_r. Qed.

(* ===================================================================== *)
(** * The scoped error check and the slot *)
(* ===================================================================== *)

Section SlotFacts.

Context {World : Type} {gl : GLES}.
Variable GLErrorToString : GLenum -> string.

Local Abbreviation dtor := (AutoErrorCheck.dtor GLErrorToString).

Lemma query_error_run (e : World -> GLenum * World) (s : State World) :
  query_error e s = Returned (fst (e (world s))) (after_query e s).
Proof.
  unfold query_error, after_query. now destruct (e (world s)).
Qed.

Lemma invoke_run {A R} (f : A -> World -> R * World) (args : A)
  (s : State World) :
  invoke (Some f) args s
  = Returned (fst (f args (world s))) (after_call f args s).
Proof.
  unfold invoke, after_call. now destruct (f args (world s)).
Qed.

Lemma dtor_unbound (this : AutoErrorCheck.t World) (s : State World) :
  AutoErrorCheck.error_fn this = None -> dtor this s = Returned tt s.
Proof.
  intros H. unfold AutoErrorCheck.dtor. now rewrite H.
Qed.

Lemma dtor_bound (this : AutoErrorCheck.t World) e (s : State World) :
  AutoErrorCheck.error_fn this = Some e ->
  dtor this s
  = AutoErrorCheck.FML_CHECK
      (N.eqb (fst (e (world s))) GL_NO_ERROR)
      (AutoErrorCheck.diagnostic GLErrorToString (fst (e (world s)))
         (AutoErrorCheck.name this))
      (after_query e s).
Proof.
  intros H. unfold AutoErrorCheck.dtor. rewrite H.
  unfold bind. now rewrite query_error_run.
Qed.

Lemma dtor_final_state (this : AutoErrorCheck.t World) e (s : State World) :
  AutoErrorCheck.error_fn this = Some e ->
  final_state (dtor this s) = after_query e s.
Proof.
  intros H. rewrite (dtor_bound _ _ _ H).
  unfold AutoErrorCheck.FML_CHECK, AutoErrorCheck.diagnostic,
    AutoErrorCheck.insert_c_str.
  destruct (N.eqb _ _); [reflexivity|].
  now destruct (AutoErrorCheck.name this).
Qed.

Lemma dtor_no_error (this : AutoErrorCheck.t World) e (s : State World) :
  AutoErrorCheck.error_fn this = Some e ->
  fst (e (world s)) = GL_NO_ERROR ->
  dtor this s = Returned tt (after_query e s).
Proof.
  intros He Hcode. rewrite (dtor_bound _ _ _ He), Hcode.
  unfold AutoErrorCheck.FML_CHECK. now rewrite N.eqb_refl.
Qed.

Lemma dtor_not_null_call (this : AutoErrorCheck.t World) (s s' : State World) :
  dtor this s <> Undefined NullFunctionCall s'.
Proof.
  destruct (AutoErrorCheck.error_fn this) as [e|] eqn:E.
  - rewrite (dtor_bound _ _ _ E).
    unfold AutoErrorCheck.FML_CHECK, AutoErrorCheck.diagnostic,
      AutoErrorCheck.insert_c_str.
    destruct (N.eqb _ _); [discriminate|].
    destruct (AutoErrorCheck.name this); discriminate.
  - rewrite (dtor_unbound _ _ E). discriminate.
Qed.

(** C3.  On scope exit of the scoped error check: if the error-query
    pointer is non-null the error query is invoked (once, on the state the
    scope exit finds); if it reports the driver's no-error code the scope
    exit returns, and if it reports any other code the process is
    terminated with the diagnostic "GL Error <translated>(<code>)
    encountered on call to <name>", which contains the translated error
    string, the raw numeric code and the name of the guarded call.  If the
    pointer is null the scope exit does nothing: no query, no
    termination, the state is unchanged. *)
Theorem AutoErrorCheck_scope_exit :
  forall (this : AutoErrorCheck.t World) (s : State World),
    (forall e, AutoErrorCheck.error_fn this = Some e ->
       let error := fst (e (world s)) in
       final_state (dtor this s) = after_query e s /\
       (error = GL_NO_ERROR -> dtor this s = Returned tt (after_query e s)) /\
       (error <> GL_NO_ERROR ->
        forall name, AutoErrorCheck.name this = Some name ->
          dtor this s = Aborted (AutoErrorCheck.diagnostic_text GLErrorToString error name) (after_query e s)
          /\ contains (GLErrorToString error) (AutoErrorCheck.diagnostic_text GLErrorToString error name)
          /\ contains (decimal error) (AutoErrorCheck.diagnostic_text GLErrorToString error name)
          /\ contains name (AutoErrorCheck.diagnostic_text GLErrorToString error name)))
    /\ (AutoErrorCheck.error_fn this = None -> dtor this s = Returned tt s).
Proof.
  intros this s. split; [|apply dtor_unbound].
  intros e He error. split; [now apply dtor_final_state|]. split.
  - now apply dtor_no_error.
  - intros Hne name Hname. rewrite (dtor_bound _ _ _ He). fold error.
    apply N.eqb_neq in Hne. rewrite Hne, Hname. split; [reflexivity|].
    unfold AutoErrorCheck.diagnostic_text. repeat split.
    + apply contains_earlier, contains_later, contains_here.
    + apply contains_earlier. do 3 apply contains_later. apply contains_here.
    + apply contains_end.
Qed.

Section Slot.

Context {A R : Type}.

Local Abbreviation call := (@GLProc.call World gl GLErrorToString A R).

Lemma call_available (this : GLProc.t World A R) f (args : A)
  (s : State World) :
  GLProc.function this = Some f ->
  call this args s
  = match dtor (AutoErrorCheck.ctor (GLProc.error_fn this) (GLProc.name this))
            (after_call f args s) with
    | Returned _ s' => Returned (fst (f args (world s))) s'
    | Aborted d s' => Aborted d s'
    | Undefined u s' => Undefined u s'
    end.
Proof.
  intros H. unfold GLProc.call, bind. rewrite H, invoke_run.
  now destruct (AutoErrorCheck.dtor _ _ _) as [[] ?| |].
Qed.

Lemma call_unavailable (this : GLProc.t World A R) (args : A)
  (s : State World) :
  GLProc.IsAvailable this = false ->
  call this args s = Undefined NullFunctionCall s.
Proof.
  unfold GLProc.IsAvailable, GLProc.call, bind, invoke.
  now destruct (GLProc.function this).
Qed.

Lemma call_not_null_call (this : GLProc.t World A R) (args : A)
  (s s' : State World) :
  GLProc.IsAvailable this = true ->
  call this args s <> Undefined NullFunctionCall s'.
Proof.
  unfold GLProc.IsAvailable.
  destruct (GLProc.function this) as [f|] eqn:E; [intros _|discriminate].
  rewrite (call_available _ _ _ _ E).
  set (guard := AutoErrorCheck.ctor _ _).
  pose proof (dtor_not_null_call guard (after_call f args s) s') as H.
  destruct (AutoErrorCheck.dtor _ _ _) as [[] ?|?|[] ?];
    congruence.
Qed.

(** C2.  For a slot whose function pointer is non-null: if an error-query
    function is bound, a call through the slot invokes the underlying
    function exactly once and then the error-query function exactly once
    (the trace grows by a driver call followed by an error query, and the
    driver state is that left by the error query run on the state left by
    the function), and when the query reports no error the call returns
    the function's result unchanged; if no error-query function is bound,
    the query is not invoked and the result is returned unchanged. *)
Theorem GLProc_call_checked :
  forall (this : GLProc.t World A R) f (args : A) (s : State World),
    GLProc.function this = Some f ->
    let result := fst (f args (world s)) in
    (forall e, GLProc.error_fn this = Some e ->
       let checked := after_query e (after_call f args s) in
       final_state (call this args s) = checked /\
       trace checked = (trace s ++ [DriverCall; ErrorQuery])%list /\
       (fst (e (snd (f args (world s)))) = GL_NO_ERROR ->
        call this args s = Returned result checked))
    /\ (GLProc.error_fn this = None ->
        call this args s = Returned result (after_call f args s) /\
        trace (after_call f args s) = (trace s ++ [DriverCall])%list).
Proof.
  intros this f args s Hf result.
  rewrite (call_available _ _ _ _ Hf). fold result. split.
  - intros e He checked. subst checked.
    set (guard := AutoErrorCheck.ctor _ _).
    assert (Hg : AutoErrorCheck.error_fn guard = Some e) by exact He.
    repeat split.
    + rewrite <- (dtor_final_state guard e _ Hg).
      now destruct (AutoErrorCheck.dtor _ _ _).
    + simpl. now rewrite <- app_assoc.
    + intros Hcode.
      now rewrite (dtor_no_error guard e (after_call f args s) Hg Hcode).
  - intros He. rewrite dtor_unbound by exact He. now split.
Qed.

(** C10.  The call operator has no availability guard: on a slot whose
    function pointer is null it calls through the null pointer at once
    (undefined behaviour, reached in the state the call found, before any
    error query), and that undefined behaviour is excluded exactly when
    [IsAvailable()] is true. *)
Theorem GLProc_call_unguarded :
  forall (this : GLProc.t World A R) (args : A) (s : State World),
    (GLProc.IsAvailable this = false ->
     call this args s = Undefined NullFunctionCall s)
    /\ (GLProc.IsAvailable this = true ->
        forall s', call this args s <> Undefined NullFunctionCall s')
    /\ ((forall s', call this args s <> Undefined NullFunctionCall s') ->
        GLProc.IsAvailable this = true).
Proof.
  intros this args s. split; [apply call_unavailable|]. split.
  - intros H s'. now apply call_not_null_call.
  - intros H. destruct (GLProc.IsAvailable this) eqn:E; [reflexivity|].
    exfalso. apply (H s). now apply call_unavailable.
Qed.

(** C6.  After [Reset] the name, the function pointer and the error-query
    binding of a slot are all null, whatever they were (the slot is as its
    default member initialisers make it), and [IsAvailable()] is false. *)
Theorem GLProc_Reset_clears :
  forall (this : GLProc.t World A R),
    GLProc.Reset this = GLProc.default
    /\ GLProc.name (GLProc.Reset this) = None
    /\ GLProc.function (GLProc.Reset this) = None
    /\ GLProc.error_fn (GLProc.Reset this) = None
    /\ GLProc.IsAvailable (GLProc.Reset this) = false.
Proof.
  intros this. repeat split.
Qed.

End Slot.
End SlotFacts.

(* ===================================================================== *)
(** * The procedure table *)
(* ===================================================================== *)

Import ProcTableGLES.

Lemma forallb_agree {X : Type} (f g : X -> bool) (l : list X) :
  (forall x, In x l -> f x = g x) -> forallb f l = forallb g l.
Proof.
  induction l as [|x l IH]; simpl; intros H; [reflexivity|].
  rewrite (H x) by now left.
  rewrite IH; [reflexivity|]. intros y Hy. apply H. now right.
Qed.

Lemma Proc_beq_eq (p q : Proc) : Proc_beq p q = true <-> p = q.
Proof.
  split; [apply internal_Proc_dec_bl | apply internal_Proc_dec_lb].
Qed.

Lemma every_proc_declared (p : Proc) :
  In p FOR_EACH_IMPELLER_PROC \/ In p FOR_EACH_IMPELLER_EXT_PROC.
Proof.
  apply in_app_or.
  assert (H : existsb (Proc_beq p)
                (FOR_EACH_IMPELLER_PROC ++ FOR_EACH_IMPELLER_EXT_PROC) = true)
    by (destruct p; reflexivity).
  apply existsb_exists in H. destruct H as (q & Hq & Heq).
  apply Proc_beq_eq in Heq. now subst q.
Qed.

Section TableFacts.

Context {World : Type} {gl : GLES}.
Variable GLErrorToString : GLenum -> string.
Context {GLDescription : Type}.
Variable GLDescription_ctor :
  (Proc -> Slot World) -> Run World GLDescription.
Variable HasDebugExtension : GLDescription -> bool.
Variable ToDebugIdentifier : DebugResourceType -> GLenum.
Variable describe_attachments : GLValue -> string.
Variable describe_status : GLValue -> string.

Local Abbreviation Table := (ProcTableGLES.t World GLDescription).
Local Abbreviation Resolver := (ProcTableGLES.Resolver World).
Local Abbreviation call := (GLProc.call (World := World) GLErrorToString).

(** C8.  Every member of the table is declared by one of the two macro
    lists, and every declared slot, core and extension alike, is created
    with its name set to "gl" followed by the declared name, a null
    function pointer and a null error-query binding, so that it is not
    available; in particular the three extension slots are created with
    their prefixed names and no error-query binding. *)
Theorem declared_slots_named_and_null :
  (forall p : Proc,
     In p FOR_EACH_IMPELLER_PROC \/ In p FOR_EACH_IMPELLER_EXT_PROC)
  /\ (forall p : Proc,
        let slot := procs (declared : Table) p in
        GLProc.name slot = Some ("gl" ++ stringify p)
        /\ GLProc.function slot = None
        /\ GLProc.error_fn slot = None
        /\ GLProc.IsAvailable slot = false)
  /\ map (fun p => GLProc.name (procs (declared : Table) p))
       FOR_EACH_IMPELLER_EXT_PROC
     = [Some "glPushDebugGroupKHR"; Some "glPopDebugGroupKHR";
        Some "glObjectLabelKHR"]
  /\ map (fun p => GLProc.error_fn (procs (declared : Table) p))
       FOR_EACH_IMPELLER_EXT_PROC
     = [None; None; None].
Proof.
  split; [exact every_proc_declared|].
  split; [intros p; repeat split|].
  split; reflexivity.
Qed.

(** ** Construction *)

Lemma resolve_function (resolver : Resolver) slots p q :
  GLProc.function (resolve resolver slots p q)
  = if Proc_beq q p then resolver (symbol q) else GLProc.function (slots q).
Proof.
  unfold resolve. destruct (Proc_beq q p) eqn:E; [|reflexivity].
  apply Proc_beq_eq in E. now subst q.
Qed.

Lemma fold_resolve_function (resolver : Resolver) (l : list Proc) :
  forall slots q,
    GLProc.function (fold_left (resolve resolver) l slots q)
    = if existsb (Proc_beq q) l
      then resolver (symbol q)
      else GLProc.function (slots q).
Proof.
  induction l as [|p l IH]; intros slots q; simpl; [reflexivity|].
  rewrite IH, resolve_function.
  destruct (Proc_beq q p); simpl; [|reflexivity].
  now destruct (existsb _ l).
Qed.

Lemma resolve_all_function (resolver : Resolver) (p : Proc) :
  GLProc.function (resolve_all (World := World) resolver p)
  = resolver (symbol p).
Proof.
  unfold resolve_all. rewrite fold_resolve_function.
  now destruct p.
Qed.

Lemma resolve_all_available (resolver : Resolver) (p : Proc) :
  GLProc.IsAvailable (resolve_all (World := World) resolver p)
  = resolves resolver p.
Proof.
  unfold GLProc.IsAvailable, resolves. now rewrite resolve_all_function.
Qed.

Lemma compute_validity_true (slots : Proc -> Slot World) :
  compute_validity slots = true
  <-> forall p, In p FOR_EACH_IMPELLER_PROC ->
                GLProc.IsAvailable (slots p) = true.
Proof. apply forallb_forall. Qed.

Lemma compute_validity_resolves (resolver : Resolver) :
  compute_validity (resolve_all (World := World) resolver)
  = forallb (resolves resolver) FOR_EACH_IMPELLER_PROC.
Proof.
  unfold compute_validity. apply forallb_agree.
  intros p _. apply resolve_all_available.
Qed.

Local Abbreviation ctor := (ProcTableGLES.ctor GLDescription_ctor).

Lemma ctor_returned (resolver : Resolver) (s s' : State World)
  (this : Table) :
  ctor resolver s = Returned this s' ->
  procs this = resolve_all resolver
  /\ is_valid_ this = compute_validity (resolve_all resolver).
Proof.
  unfold ProcTableGLES.ctor.
  destruct (compute_validity _) eqn:E.
  - unfold bind, ret.
    destruct (GLDescription_ctor _ s); intros H; inversion H; now subst.
  - unfold ret. intros H; inversion H; now subst.
Qed.

(** C1.  For a table that its constructor returned, every slot holds
    what the resolver returned for its symbol, and [IsValid()] is true if
    and only if every core slot holds a non-null function pointer.  The
    constructor returns an invalid table whenever a core symbol does not
    resolve, and a valid one whenever all core symbols resolve and the
    driver description is built.  Two resolvers that agree on which core
    symbols resolve give the same [IsValid()], whatever they return for
    the extension symbols. *)
Theorem IsValid_iff_core_resolved :
  forall (resolver : Resolver) (s : State World),
    (forall (this : Table) s',
       ctor resolver s = Returned this s' ->
       (forall p, GLProc.function (procs this p) = resolver (symbol p))
       /\ (IsValid this = true
           <-> forall p, In p FOR_EACH_IMPELLER_PROC ->
                         GLProc.IsAvailable (procs this p) = true))
    /\ ((exists p, In p FOR_EACH_IMPELLER_PROC /\ resolves resolver p = false) ->
        exists this : Table,
          ctor resolver s = Returned this s /\ IsValid this = false)
    /\ ((forall p, In p FOR_EACH_IMPELLER_PROC -> resolves resolver p = true) ->
        forall description s',
          GLDescription_ctor (resolve_all resolver) s
          = Returned description s' ->
          exists this : Table,
            ctor resolver s = Returned this s' /\ IsValid this = true)
    /\ (forall (resolver' : Resolver) (r : State World),
          (forall p, In p FOR_EACH_IMPELLER_PROC ->
                     resolves resolver' p = resolves resolver p) ->
          forall (this this' : Table) s' r',
            ctor resolver s = Returned this s' ->
            ctor resolver' r = Returned this' r' ->
            IsValid this' = IsValid this).
Proof.
  intros resolver s. split; [|split; [|split]].
  - intros this s' H. apply ctor_returned in H. destruct H as [Hp Hv].
    unfold IsValid. rewrite Hv, Hp. split.
    + intros p. apply resolve_all_function.
    + apply compute_validity_true.
  - intros (p & Hin & Hp).
    assert (E : compute_validity (resolve_all (World := World) resolver)
                = false).
    { rewrite compute_validity_resolves.
      destruct (forallb _ _) eqn:F; [|reflexivity].
      rewrite forallb_forall in F. rewrite (F p Hin) in Hp. discriminate. }
    unfold ProcTableGLES.ctor. rewrite E. eexists. split; reflexivity.
  - intros Hall description s' Hd.
    assert (E : compute_validity (resolve_all (World := World) resolver)
                = true).
    { rewrite compute_validity_resolves. now apply forallb_forall. }
    unfold ProcTableGLES.ctor. rewrite E. unfold bind. rewrite Hd.
    eexists. split; reflexivity.
  - intros resolver' r Hagree this this' s' r' H H'.
    apply ctor_returned in H, H'. destruct H as [_ Hv], H' as [_ Hv'].
    unfold IsValid. rewrite Hv, Hv', !compute_validity_resolves.
    apply forallb_agree. exact Hagree.
Qed.

(** ** Derived operations *)

(** C4.  When the debug-labeling extension is unavailable (the labeling
    slot is not resolved, or the driver description does not report the
    capability), [SetDebugLabel] returns normally in the state it was
    called in, for every resource type, handle and label: no driver
    function and no error query is invoked, the driver state is
    unchanged, and there is no fatal diagnostic. *)
Theorem SetDebugLabel_unavailable_noop :
  forall (this : Table) (type : DebugResourceType) (name : GLint)
         (label : string) (s : State World),
    GLProc.IsAvailable (procs this ObjectLabelKHR) = false
    \/ has_debug_extension HasDebugExtension this = false ->
    SetDebugLabel GLErrorToString HasDebugExtension ToDebugIdentifier
      this type name label s
    = Returned tt s.
Proof.
  intros this type name label s H. unfold SetDebugLabel.
  destruct (GLProc.IsAvailable _); simpl; [|reflexivity].
  destruct H as [H|H]; [discriminate|]. now rewrite H.
Qed.

Lemma is_enum_true (expected : GLenum) (v : GLValue) :
  is_enum expected v = true <-> v = GLenumV expected.
Proof.
  destruct v; simpl; try (split; [discriminate|intros H; discriminate]).
  rewrite N.eqb_eq. split; [now intros ->|intros H; now inversion H].
Qed.

(** C5.  [IsCurrentFramebufferComplete()] returns false, without any
    driver call, when the completeness-status slot is unavailable; when
    the slot reports a value it returns whether that value is the driver's
    complete sentinel; so it returns true exactly when the slot is
    available and reports the complete sentinel.  It never calls through
    a null function pointer. *)
Theorem IsCurrentFramebufferComplete_spec :
  forall (this : Table) (s : State World),
    let slot := procs this CheckFramebufferStatus in
    let query := call slot [GLenumV GL_FRAMEBUFFER] in
    (GLProc.IsAvailable slot = false ->
     IsCurrentFramebufferComplete GLErrorToString this s = Returned false s)
    /\ (forall status s',
          query s = Returned status s' ->
          IsCurrentFramebufferComplete GLErrorToString this s
          = Returned (is_enum GL_FRAMEBUFFER_COMPLETE status) s'
          /\ (is_enum GL_FRAMEBUFFER_COMPLETE status = true
              <-> status = GLenumV GL_FRAMEBUFFER_COMPLETE))
    /\ (forall s',
          IsCurrentFramebufferComplete GLErrorToString this s
          = Returned true s'
          <-> GLProc.IsAvailable slot = true
              /\ query s = Returned (GLenumV GL_FRAMEBUFFER_COMPLETE) s')
    /\ (forall s',
          IsCurrentFramebufferComplete GLErrorToString this s
          <> Undefined NullFunctionCall s').
Proof.
  intros this s slot query. unfold IsCurrentFramebufferComplete.
  fold slot. unfold bind. fold query.
  split; [|split; [|split]].
  - now intros ->.
  - intros status s' Hq.
    destruct (GLProc.IsAvailable slot) eqn:E.
    + rewrite Hq. split; [reflexivity|apply is_enum_true].
    + unfold query in Hq. rewrite call_unavailable in Hq by exact E.
      discriminate.
  - intros s'. destruct (GLProc.IsAvailable slot) eqn:E.
    + destruct (query s) as [status s1| |] eqn:Hq.
      * unfold ret. split.
        -- intros H. inversion H as [[Hs Hst]]. split; [reflexivity|].
           apply is_enum_true in Hs. now subst.
        -- intros [_ H]. inversion H. subst. simpl. now rewrite N.eqb_refl.
      * split; [discriminate|intros [_ H]; discriminate].
      * split; [discriminate|intros [_ H]; discriminate].
    + unfold ret. split; [discriminate|intros [H _]; discriminate].
  - intros s'. destruct (GLProc.IsAvailable slot) eqn:E.
    + pose proof (call_not_null_call GLErrorToString slot
                    [GLenumV GL_FRAMEBUFFER] s s' E) as H.
      fold query in H. destruct (query s) as [? ?|? ?|[] ?];
        unfold ret; congruence.
    + discriminate.
Qed.

Lemma query_or_note_not_null_call (slot : Slot World) render note
  (s s' : State World) :
  query_or_note GLErrorToString slot render note s
  <> Undefined NullFunctionCall s'.
Proof.
  unfold query_or_note. destruct (GLProc.IsAvailable slot) eqn:E.
  - pose proof (call_not_null_call GLErrorToString slot
                  [GLenumV GL_FRAMEBUFFER] s s' E) as H.
    unfold bind.
    destruct (GLProc.call _ _ _ _) as [? ?|? ?|[] ?]; unfold ret; congruence.
  - discriminate.
Qed.

(** C9.  When both framebuffer-introspection slots (the
    attachment-parameter query and the completeness-status query) are
    unavailable, [DescribeCurrentFramebuffer()] returns the defined
    description "no information available" in the state it was called
    in, without any driver call; and in no case does it call through a
    null function pointer. *)
Theorem DescribeCurrentFramebuffer_unavailable :
  forall (this : Table) (s : State World),
    (GLProc.IsAvailable (procs this GetFramebufferAttachmentParameteriv)
     = false ->
     GLProc.IsAvailable (procs this CheckFramebufferStatus) = false ->
     DescribeCurrentFramebuffer GLErrorToString describe_attachments
       describe_status this s
     = Returned "no information available" s)
    /\ (forall s',
          DescribeCurrentFramebuffer GLErrorToString describe_attachments
            describe_status this s
          <> Undefined NullFunctionCall s').
Proof.
  intros this s. unfold DescribeCurrentFramebuffer. split.
  - now intros -> ->.
  - intros s'. destruct (negb _ && negb _); [discriminate|].
    unfold bind.
    pose proof (query_or_note_not_null_call
                  (procs this GetFramebufferAttachmentParameteriv)
                  describe_attachments "attachments could not be queried"
                  s s') as Ha.
    destruct (query_or_note _ _ _ _ s) as [a s1|? ?|[] ?]; try congruence.
    pose proof (query_or_note_not_null_call
                  (procs this CheckFramebufferStatus)
                  describe_status "status could not be queried"
                  s1 s') as Hc.
    destruct (query_or_note _ _ _ _ s1) as [c s2|? ?|[] ?];
      unfold ret; congruence.
Qed.

End TableFacts.

(* ===================================================================== *)
(** * Error translation *)
(* ===================================================================== *)

Lemma find_code_none (known : list (GLenum * string)) (value : GLenum) :
  ~ In value (map fst known) ->
  find (fun entry => N.eqb (fst entry) value) known = None.
Proof.
  induction known as [|[code text] known IH]; simpl; [reflexivity|].
  intros H. destruct (N.eqb_spec code value) as [->|Hne].
  - exfalso. apply H. now left.
  - apply IH. intros Hin. apply H. now right.
Qed.

(** C7.  The error translator is total and deterministic: for every
    table of known codes and every code it yields a string, equal codes
    yield equal strings, a code outside the known enumeration yields the
    generic "unknown error" string, and a code in the enumeration yields
    an identifier the enumeration gives for it. *)
Theorem GLErrorToString_total_deterministic :
  forall (known : list (GLenum * string)) (value : GLenum),
    (exists text, GLErrorToString known value = text)
    /\ (forall value', value' = value ->
          GLErrorToString known value' = GLErrorToString known value)
    /\ (~ In value (map fst known) ->
        GLErrorToString known value = "unknown error")
    /\ (In value (map fst known) ->
        In (value, GLErrorToString known value) known).
Proof.
  intros known value. split; [now eexists|]. split; [now intros ? ->|].
  unfold GLErrorToString. split.
  - intros H. now rewrite find_code_none.
  - intros H.
    destruct (find (fun entry => N.eqb (fst entry) value) known)
      as [[code text]|] eqn:F.
    + apply find_some in F. destruct F as [Hin Heq]. simpl in Heq.
      apply N.eqb_eq in Heq. now subst.
    + exfalso. apply in_map_iff in H. destruct H as ([code text] & Hc & Hin).
      simpl in Hc. subst code.
      apply (find_none _ _ F) in Hin. simpl in Hin.
      now rewrite N.eqb_refl in Hin.
Qed.

(* ===================================================================== *)
(** * Concrete runs *)
(* ===================================================================== *)

(** The facts above, applied to the stub drivers with the constants and
    the error names of the Khronos header. *)

Section Runs.

Local Abbreviation translate := (GLErrorToString khronos_errors).
Local Abbreviation guard := (@AutoErrorCheck.ctor Stub.World).

Lemma AutoErrorCheck_scope_exit_runs :
  AutoErrorCheck.dtor (gl := Khronos) translate
    (guard (Some (Stub.reporting 1282%N)) (Some "glClear")) Stub.start
  = Aborted "GL Error GL_INVALID_OPERATION(1282) encountered on call to glClear"
      {| world := 0; trace := [ErrorQuery] |}
  /\ AutoErrorCheck.dtor (gl := Khronos) translate
       (guard (Some (Stub.reporting 0%N)) (Some "glClear")) Stub.start
     = Returned tt {| world := 0; trace := [ErrorQuery] |}
  /\ AutoErrorCheck.dtor (gl := Khronos) translate
       (guard None (Some "glClear")) Stub.start
     = Returned tt Stub.start.
Proof.
  split; [|split].
  - destruct (AutoErrorCheck_scope_exit (gl := Khronos) translate
                (guard (Some (Stub.reporting 1282%N)) (Some "glClear"))
                Stub.start) as [H _].
    destruct (H (Stub.reporting 1282%N) eq_refl) as (_ & _ & Herr).
    assert (Hne : 1282%N <> 0%N) by (vm_compute; discriminate).
    destruct (Herr Hne "glClear" eq_refl) as [Hrun _]. exact Hrun.
  - destruct (AutoErrorCheck_scope_exit (gl := Khronos) translate
                (guard (Some (Stub.reporting 0%N)) (Some "glClear"))
                Stub.start) as [H _].
    destruct (H (Stub.reporting 0%N) eq_refl) as (_ & Hok & _).
    exact (Hok eq_refl).
  - destruct (AutoErrorCheck_scope_exit (gl := Khronos) translate
                (guard None (Some "glClear")) Stub.start) as [_ H].
    exact (H eq_refl).
Defined.

Lemma GLProc_call_checked_runs :
  GLProc.call (gl := Khronos) translate
    (Stub.slot "glCheckFramebufferStatus" (GLenumV 36053%N) (Some 0%N))
    [GLenumV 36160%N] Stub.start
  = Returned (GLenumV 36053%N)
      {| world := 1; trace := [DriverCall; ErrorQuery] |}
  /\ GLProc.call (gl := Khronos) translate
       (Stub.slot "glCheckFramebufferStatus" (GLenumV 36053%N) None)
       [GLenumV 36160%N] Stub.start
     = Returned (GLenumV 36053%N) {| world := 1; trace := [DriverCall] |}.
Proof.
  split.
  - destruct (GLProc_call_checked (gl := Khronos) translate
                (Stub.slot "glCheckFramebufferStatus" (GLenumV 36053%N)
                   (Some 0%N))
                (Stub.returning (GLenumV 36053%N))
                [GLenumV 36160%N] Stub.start eq_refl) as [H _].
    destruct (H (Stub.reporting 0%N) eq_refl) as (_ & _ & Hok).
    exact (Hok eq_refl).
  - destruct (GLProc_call_checked (gl := Khronos) translate
                (Stub.slot "glCheckFramebufferStatus" (GLenumV 36053%N) None)
                (Stub.returning (GLenumV 36053%N))
                [GLenumV 36160%N] Stub.start eq_refl) as [_ H].
    destruct (H eq_refl) as [Hrun _]. exact Hrun.
Defined.

Lemma GLProc_call_unguarded_runs :
  GLProc.call (gl := Khronos) translate
    (ProcTableGLES.IMPELLER_PROC (World := Stub.World) Clear)
    [GLenumV 16384%N] Stub.start
  = Undefined NullFunctionCall Stub.start
  /\ GLProc.call (gl := Khronos) translate
       (Stub.slot "glClear" GLvoidV (Some 1282%N))
       [GLenumV 16384%N] Stub.start
     <> Undefined NullFunctionCall Stub.start.
Proof.
  split.
  - destruct (GLProc_call_unguarded (gl := Khronos) translate
                (ProcTableGLES.IMPELLER_PROC (World := Stub.World) Clear)
                [GLenumV 16384%N] Stub.start) as [H _].
    exact (H eq_refl).
  - destruct (GLProc_call_unguarded (gl := Khronos) translate
                (Stub.slot "glClear" GLvoidV (Some 1282%N))
                [GLenumV 16384%N] Stub.start) as (_ & H & _).
    exact (H eq_refl Stub.start).
Defined.

Lemma core_proc_Clear : In Clear FOR_EACH_IMPELLER_PROC.
Proof. simpl. tauto. Defined.

Lemma IsValid_iff_core_resolved_runs :
  (exists this,
     ProcTableGLES.ctor (Stub.describe true) Stub.resolve_everything
       Stub.start
     = Returned this Stub.start
     /\ IsValid this = true)
  /\ (exists this,
        ProcTableGLES.ctor (Stub.describe true) Stub.resolve_all_but_clear
          Stub.start
        = Returned this Stub.start
        /\ IsValid this = false).
Proof.
  split.
  - destruct (IsValid_iff_core_resolved (Stub.describe true)
                Stub.resolve_everything Stub.start) as (_ & _ & H & _).
    exact (H (fun p _ => eq_refl) true Stub.start eq_refl).
  - destruct (IsValid_iff_core_resolved (Stub.describe true)
                Stub.resolve_all_but_clear Stub.start) as (_ & H & _).
    apply H. exists Clear. split; [exact core_proc_Clear | reflexivity].
Defined.

Lemma SetDebugLabel_unavailable_noop_runs :
  SetDebugLabel (gl := Khronos) translate (fun has_debug => has_debug)
    Stub.identifier Stub.empty_table kTexture 7%Z "atlas" Stub.start
  = Returned tt Stub.start.
Proof.
  apply (SetDebugLabel_unavailable_noop (gl := Khronos) translate
           (fun has_debug => has_debug) Stub.identifier Stub.empty_table
           kTexture 7%Z "atlas" Stub.start).
  left. reflexivity.
Defined.

Lemma IsCurrentFramebufferComplete_spec_runs :
  IsCurrentFramebufferComplete (gl := Khronos) translate Stub.empty_table
    Stub.start
  = Returned false Stub.start
  /\ IsCurrentFramebufferComplete (gl := Khronos) translate
       (Stub.table_reporting 36053%N) Stub.start
     = Returned true {| world := 1; trace := [DriverCall; ErrorQuery] |}
  /\ IsCurrentFramebufferComplete (gl := Khronos) translate
       (Stub.table_reporting 36054%N) Stub.start
     = Returned false {| world := 1; trace := [DriverCall; ErrorQuery] |}.
Proof.
  split; [|split].
  - destruct (IsCurrentFramebufferComplete_spec (gl := Khronos) translate
                Stub.empty_table Stub.start) as [H _].
    exact (H eq_refl).
  - destruct (IsCurrentFramebufferComplete_spec (gl := Khronos) translate
                (Stub.table_reporting 36053%N) Stub.start) as (_ & _ & H & _).
    apply H. split; reflexivity.
  - destruct (IsCurrentFramebufferComplete_spec (gl := Khronos) translate
                (Stub.table_reporting 36054%N) Stub.start) as (_ & H & _).
    destruct (H (GLenumV 36054%N)
                {| world := 1; trace := [DriverCall; ErrorQuery] |} eq_refl)
      as [Hrun _].
    exact Hrun.
Defined.

Lemma DescribeCurrentFramebuffer_unavailable_runs :
  DescribeCurrentFramebuffer (gl := Khronos) translate Stub.render
    Stub.render Stub.empty_table Stub.start
  = Returned "no information available" Stub.start.
Proof.
  destruct (DescribeCurrentFramebuffer_unavailable (gl := Khronos) translate
              Stub.render Stub.render Stub.empty_table Stub.start) as [H _].
  exact (H eq_refl eq_refl).
Defined.

Lemma GLErrorToString_total_deterministic_runs :
  GLErrorToString khronos_errors 7%N = "unknown error"
  /\ In (1282%N, GLErrorToString khronos_errors 1282%N) khronos_errors.
Proof.
  split.
  - destruct (GLErrorToString_total_deterministic khronos_errors 7%N)
      as (_ & _ & H & _).
    apply H. simpl. intros [E|[E|[E|[E|[E|[E|[]]]]]]]; discriminate E.
  - destruct (GLErrorToString_total_deterministic khronos_errors 1282%N)
      as (_ & _ & _ & H).
    apply H. simpl. tauto.
Defined.

End Runs.

(* ===================================================================== *)
(** * Outcomes of a call through a slot *)
(* ===================================================================== *)

Lemma append_cancel_l (a x y : string) : a ++ x = a ++ y -> x = y.
Proof.
  induction a as [|ch a IH]; simpl; intros H; [exact H|].
  apply IH. now inversion H.
Qed.

Section CallOutcomes.

Context {World : Type} {gl : GLES}.
Variable GLErrorToString : GLenum -> string.
Context {A R : Type}.

Local Abbreviation call := (@GLProc.call World gl GLErrorToString A R).
Local Abbreviation text := (AutoErrorCheck.diagnostic_text GLErrorToString).

(** What a call through a slot with a non-null function pointer does, by
    cases on the error-query binding, the reported code and the name. *)
Lemma call_cases (this : GLProc.t World A R) f (args : A) (s : State World) :
  GLProc.function this = Some f ->
  call this args s
  = match GLProc.error_fn this with
    | None => Returned (fst (f args (world s))) (after_call f args s)
    | Some e =>
        let error := fst (e (snd (f args (world s)))) in
        let checked := after_query e (after_call f args s) in
        if N.eqb error GL_NO_ERROR
        then Returned (fst (f args (world s))) checked
        else match GLProc.name this with
             | Some name => Aborted (text error name) checked
             | None => Undefined NullStringInsert checked
             end
    end.
Proof.
  intros Hf. rewrite (call_available _ _ _ _ _ Hf).
  set (guard := AutoErrorCheck.ctor _ _).
  destruct (GLProc.error_fn this) as [e|] eqn:He.
  - rewrite (dtor_bound GLErrorToString guard e _ eq_refl). simpl.
    unfold AutoErrorCheck.FML_CHECK.
    destruct (N.eqb _ _); [reflexivity|].
    unfold AutoErrorCheck.diagnostic, AutoErrorCheck.insert_c_str.
    now destruct (GLProc.name this).
  - now rewrite (dtor_unbound GLErrorToString guard _ eq_refl).
Qed.

(** X1.  A call through a slot returns to its caller exactly when the
    function pointer is non-null and the error query is either unbound or
    reports the no-error code; what it returns is then the function's
    result, in the state left by the function and, if bound, the query. *)
Theorem GLProc_call_returns_iff :
  forall (this : GLProc.t World A R) (args : A) (s s' : State World) (r : R),
    call this args s = Returned r s'
    <-> exists f,
          GLProc.function this = Some f
          /\ r = fst (f args (world s))
          /\ ((GLProc.error_fn this = None /\ s' = after_call f args s)
              \/ exists e,
                   GLProc.error_fn this = Some e
                   /\ fst (e (snd (f args (world s)))) = GL_NO_ERROR
                   /\ s' = after_query e (after_call f args s)).
Proof.
  intros this args s s' r. split.
  - destruct (GLProc.function this) as [f|] eqn:Hf.
    + rewrite (call_cases _ _ _ _ Hf).
      destruct (GLProc.error_fn this) as [e|]; cbv zeta.
      * destruct (N.eqb_spec (fst (e (snd (f args (world s))))) GL_NO_ERROR)
          as [Hc|Hc].
        -- intros H. inversion H. exists f. repeat split.
           right. exists e. now repeat split.
        -- destruct (GLProc.name this); discriminate.
      * intros H. inversion H. exists f. repeat split. now left.
    + rewrite call_unavailable; [discriminate|].
      unfold GLProc.IsAvailable. now rewrite Hf.
  - intros (f & Hf & -> & [[He ->]|(e & He & Hc & ->)]);
      rewrite (call_cases _ _ _ _ Hf), He; [reflexivity|].
    cbv zeta. now rewrite Hc, N.eqb_refl.
Qed.

(** X2.  A call through a slot is terminated by the failed check exactly
    when the function pointer, the error-query binding and the name are
    all non-null and the query, run on the driver state the function
    left, reports a code other than no-error.  The function has then
    already run, its result is dropped, and the diagnostic is the one
    built from that code and the slot's name. *)
Theorem GLProc_call_aborts_iff :
  forall (this : GLProc.t World A R) (args : A) (s s' : State World)
         (d : string),
    call this args s = Aborted d s'
    <-> exists f e name,
          GLProc.function this = Some f
          /\ GLProc.error_fn this = Some e
          /\ GLProc.name this = Some name
          /\ fst (e (snd (f args (world s)))) <> GL_NO_ERROR
          /\ d = text (fst (e (snd (f args (world s))))) name
          /\ s' = after_query e (after_call f args s).
Proof.
  intros this args s s' d. split.
  - destruct (GLProc.function this) as [f|] eqn:Hf.
    + rewrite (call_cases _ _ _ _ Hf).
      destruct (GLProc.error_fn this) as [e|]; cbv zeta; [|discriminate].
      destruct (N.eqb_spec (fst (e (snd (f args (world s))))) GL_NO_ERROR)
        as [Hc|Hc]; [discriminate|].
      destruct (GLProc.name this) as [name|]; [|discriminate].
      intros H. inversion H. exists f, e, name. now repeat split.
    + rewrite call_unavailable; [discriminate|].
      unfold GLProc.IsAvailable. now rewrite Hf.
  - intros (f & e & name & Hf & He & Hn & Hc & -> & ->).
    rewrite (call_cases _ _ _ _ Hf), He, Hn. cbv zeta.
    apply N.eqb_neq in Hc. now rewrite Hc.
Qed.

(** X3.  The name of a slot is read only when the check fails.  For a
    slot with a function pointer and an error query but a null name, a
    call that meets no error returns the function's result as usual; a
    call that meets an error inserts the null name into the diagnostic
    stream, which is undefined behaviour, after the function and the
    query have run. *)
Theorem GLProc_call_null_name :
  forall (this : GLProc.t World A R) f e (args : A) (s : State World),
    GLProc.function this = Some f ->
    GLProc.error_fn this = Some e ->
    GLProc.name this = None ->
    let error := fst (e (snd (f args (world s)))) in
    let checked := after_query e (after_call f args s) in
    (error = GL_NO_ERROR ->
     call this args s = Returned (fst (f args (world s))) checked)
    /\ (error <> GL_NO_ERROR ->
        call this args s = Undefined NullStringInsert checked).
Proof.
  intros this f e args s Hf He Hn error checked.
  rewrite (call_cases _ _ _ _ Hf), He, Hn. cbv zeta. fold error. split.
  - intros ->. now rewrite N.eqb_refl.
  - intros Hc. apply N.eqb_neq in Hc. now rewrite Hc.
Qed.

(** X4.  Whatever the outcome of a call through a slot, the state it
    leaves and the events it adds to the trace are fixed by the bindings
    of the slot alone: nothing happens if the function pointer is null;
    the function runs once if only the function is bound; the function
    runs once and then the error query runs once, on the driver state the
    function left, if both are bound.  So a call never invokes the
    function twice, never queries the error state before or without
    invoking the function, and never removes earlier events. *)
Theorem GLProc_call_events :
  forall (this : GLProc.t World A R) (args : A) (s : State World),
    final_state (call this args s)
    = match GLProc.function this, GLProc.error_fn this with
      | None, _ => s
      | Some f, None => after_call f args s
      | Some f, Some e => after_query e (after_call f args s)
      end
    /\ trace (final_state (call this args s))
       = (trace s
          ++ match GLProc.function this, GLProc.error_fn this with
             | None, _ => []
             | Some _, None => [DriverCall]
             | Some _, Some _ => [DriverCall; ErrorQuery]
             end)%list.
Proof.
  intros this args s.
  assert (H : final_state (call this args s)
              = match GLProc.function this, GLProc.error_fn this with
                | None, _ => s
                | Some f, None => after_call f args s
                | Some f, Some e => after_query e (after_call f args s)
                end).
  { destruct (GLProc.function this) as [f|] eqn:Hf.
    - rewrite (call_cases _ _ _ _ Hf).
      destruct (GLProc.error_fn this) as [e|]; cbv zeta; [|reflexivity].
      destruct (N.eqb _ _); [reflexivity|].
      now destruct (GLProc.name this).
    - now rewrite call_unavailable
        by (unfold GLProc.IsAvailable; now rewrite Hf). }
  split; [exact H|]. rewrite H.
  destruct (GLProc.function this) as [f|]; [|simpl; now rewrite app_nil_r].
  destruct (GLProc.error_fn this) as [e|]; [|reflexivity].
  simpl. now rewrite <- app_assoc.
Qed.

(** X5.  A slot that has been reset cannot be called: whatever was bound
    before, a call through it is a call through a null pointer, made
    before anything else happens.  Resetting twice is resetting once. *)
Theorem GLProc_call_after_Reset :
  forall (this : GLProc.t World A R) (args : A) (s : State World),
    call (GLProc.Reset this) args s = Undefined NullFunctionCall s
    /\ GLProc.Reset (GLProc.Reset this) = GLProc.Reset this.
Proof.
  intros this args s. split; [|reflexivity].
  now apply call_unavailable.
Qed.

End CallOutcomes.

(* ===================================================================== *)
(** * The declared symbols *)
(* ===================================================================== *)

Lemma NoDup_map_injective {X Y : Type} (f : X -> Y) (l : list X) :
  (forall a b, f a = f b -> a = b) -> NoDup l -> NoDup (map f l).
Proof.
  intros Hinj. induction 1 as [|x l Hx Hl IH]; simpl; constructor.
  - intros Hin. apply in_map_iff in Hin. destruct Hin as (y & Hy & Hin).
    apply Hinj in Hy. now subst y.
  - exact IH.
Qed.

Lemma NoDup_app_apart {X : Type} (l1 l2 : list X) (x : X) :
  NoDup (l1 ++ l2) -> In x l1 -> ~ In x l2.
Proof.
  induction l1 as [|y l1 IH]; simpl; intros N H1 H2; [contradiction|].
  inversion N as [|? ? Hy N']; subst. destruct H1 as [->|H1].
  - apply Hy. apply in_or_app. now right.
  - now apply (IH N' H1).
Qed.

Lemma symbol_inj (p q : Proc) : symbol p = symbol q -> p = q.
Proof.
  intros H.
  assert (T : forallb
                (fun a =>
                   forallb
                     (fun b =>
                        implb (String.eqb (symbol a) (symbol b))
                          (Proc_beq a b))
                     (FOR_EACH_IMPELLER_PROC ++ FOR_EACH_IMPELLER_EXT_PROC))
                (FOR_EACH_IMPELLER_PROC ++ FOR_EACH_IMPELLER_EXT_PROC)
              = true) by (vm_compute; reflexivity).
  rewrite forallb_forall in T.
  pose proof (T p (in_or_app _ _ _ (every_proc_declared p))) as Tp.
  rewrite forallb_forall in Tp.
  pose proof (Tp q (in_or_app _ _ _ (every_proc_declared q))) as Tpq.
  apply String.eqb_eq in H. rewrite H in Tpq. simpl in Tpq.
  now apply Proc_beq_eq.
Qed.

Lemma declared_once :
  NoDup (FOR_EACH_IMPELLER_PROC ++ FOR_EACH_IMPELLER_EXT_PROC).
Proof.
  unfold FOR_EACH_IMPELLER_PROC, FOR_EACH_IMPELLER_EXT_PROC. simpl.
  repeat (constructor; [simpl; intuition discriminate|]).
  constructor.
Qed.

(** X7.  No two members of the table share a driver symbol: distinct
    declared names have distinct prefixed symbols, and the symbols of the
    core list followed by the extension list are without repetition, so
    each symbol belongs to one slot and no symbol is both a core and an
    extension symbol. *)
Theorem declared_symbols_distinct :
  (forall p q : Proc, symbol p = symbol q -> p = q)
  /\ NoDup (map symbol (FOR_EACH_IMPELLER_PROC ++ FOR_EACH_IMPELLER_EXT_PROC))
  /\ (forall p, In p FOR_EACH_IMPELLER_PROC ->
                ~ In (symbol p) (map symbol FOR_EACH_IMPELLER_EXT_PROC)).
Proof.
  split; [exact symbol_inj|]. split.
  - apply NoDup_map_injective; [exact symbol_inj|exact declared_once].
  - intros p Hcore Hext.
    apply in_map_iff in Hext. destruct Hext as (q & Hq & Hin).
    apply symbol_inj in Hq. subst q.
    exact (NoDup_app_apart _ _ p declared_once Hcore Hin).
Qed.

(** X6.  The diagnostic of a failed check identifies the guarded call:
    for one error code, two names give the same diagnostic only if they
    are the same name, and so the diagnostics of two members of the table
    agree only if they are the same member. *)
Theorem diagnostic_identifies_call :
  forall (GLErrorToString : GLenum -> string) (error : GLenum),
    (forall name name' : string,
       AutoErrorCheck.diagnostic_text GLErrorToString error name
       = AutoErrorCheck.diagnostic_text GLErrorToString error name' ->
       name = name')
    /\ (forall p q : Proc,
          AutoErrorCheck.diagnostic_text GLErrorToString error (symbol p)
          = AutoErrorCheck.diagnostic_text GLErrorToString error (symbol q) ->
          p = q).
Proof.
  intros translate error.
  assert (H : forall name name' : string,
            AutoErrorCheck.diagnostic_text translate error name
            = AutoErrorCheck.diagnostic_text translate error name' ->
            name = name').
  { intros name name'. unfold AutoErrorCheck.diagnostic_text.
    apply append_cancel_l. }
  split; [exact H|]. intros p q E. apply symbol_inj. now apply H.
Qed.

(* ===================================================================== *)
(** * Further concrete runs *)
(* ===================================================================== *)

Section MoreRuns.

Local Abbreviation translate := (GLErrorToString khronos_errors).

(** A stub that fails the check: the function does one unit of work, the
    query reports an invalid operation. *)
Local Abbreviation failing :=
  (Stub.slot "glClear" GLvoidV (Some 1282%N)).

Lemma GLProc_call_returns_iff_runs :
  exists f,
    GLProc.function
      (Stub.slot "glCheckFramebufferStatus" (GLenumV 36053%N) (Some 0%N))
    = Some f
    /\ GLenumV 36053%N = fst (f [GLenumV 36160%N] (world Stub.start)).
Proof.
  destruct (proj1 (GLProc_call_returns_iff (gl := Khronos) translate
                     (Stub.slot "glCheckFramebufferStatus"
                        (GLenumV 36053%N) (Some 0%N))
                     [GLenumV 36160%N] Stub.start
                     {| world := 1; trace := [DriverCall; ErrorQuery] |}
                     (GLenumV 36053%N))
              eq_refl) as (f & Hf & Hr & _).
  exists f. split; [exact Hf | exact Hr].
Defined.

Lemma GLProc_call_aborts_iff_runs :
  GLProc.call (gl := Khronos) translate failing [GLenumV 16384%N] Stub.start
  = Aborted "GL Error GL_INVALID_OPERATION(1282) encountered on call to glClear"
      {| world := 1; trace := [DriverCall; ErrorQuery] |}.
Proof.
  apply (proj2 (GLProc_call_aborts_iff (gl := Khronos) translate failing
                  [GLenumV 16384%N] Stub.start
                  {| world := 1; trace := [DriverCall; ErrorQuery] |}
                  "GL Error GL_INVALID_OPERATION(1282) encountered on call to glClear")).
  exists (Stub.returning GLvoidV), (Stub.reporting 1282%N), "glClear".
  repeat split. vm_compute. discriminate.
Defined.

Lemma GLProc_call_null_name_runs :
  GLProc.call (gl := Khronos) translate
    {| GLProc.name := None;
       GLProc.function := Some (Stub.returning GLvoidV);
       GLProc.error_fn := Some (Stub.reporting 1282%N) |}
    [GLenumV 16384%N] Stub.start
  = Undefined NullStringInsert
      {| world := 1; trace := [DriverCall; ErrorQuery] |}
  /\ GLProc.call (gl := Khronos) translate
       {| GLProc.name := None;
          GLProc.function := Some (Stub.returning GLvoidV);
          GLProc.error_fn := Some (Stub.reporting 0%N) |}
       [GLenumV 16384%N] Stub.start
     = Returned GLvoidV {| world := 1; trace := [DriverCall; ErrorQuery] |}.
Proof.
  split.
  - destruct (GLProc_call_null_name (gl := Khronos) translate
                {| GLProc.name := None;
                   GLProc.function := Some (Stub.returning GLvoidV);
                   GLProc.error_fn := Some (Stub.reporting 1282%N) |}
                (Stub.returning GLvoidV) (Stub.reporting 1282%N)
                [GLenumV 16384%N] Stub.start eq_refl eq_refl eq_refl)
      as [_ H].
    apply H. vm_compute. discriminate.
  - destruct (GLProc_call_null_name (gl := Khronos) translate
                {| GLProc.name := None;
                   GLProc.function := Some (Stub.returning GLvoidV);
                   GLProc.error_fn := Some (Stub.reporting 0%N) |}
                (Stub.returning GLvoidV) (Stub.reporting 0%N)
                [GLenumV 16384%N] Stub.start eq_refl eq_refl eq_refl)
      as [H _].
    exact (H eq_refl).
Defined.

Lemma declared_symbols_distinct_runs :
  ~ In (symbol Clear) (map symbol FOR_EACH_IMPELLER_EXT_PROC).
Proof.
  destruct declared_symbols_distinct as (_ & _ & H).
  exact (H Clear core_proc_Clear).
Defined.

Lemma diagnostic_identifies_call_runs :
  "glClear" = "glClear" /\ Clear = Clear.
Proof.
  destruct (diagnostic_identifies_call translate 1282%N) as [Hname Hproc].
  split; [exact (Hname "glClear" "glClear" eq_refl)
         | exact (Hproc Clear Clear eq_refl)].
Defined.

End MoreRuns.
